(** * A one-byte robot header: bit-field decoding of [main.c]

    [main.c] lays a record out in a single byte

<<
      bit   7        6 5        4        3 2 1 0
          gender   version   active   gigahertz
>>

    and reads it back with shifts and AND masks ([parseByte]); a second
    routine, [getRobotGender], reads the top bit alone through a mask kept
    in a plain [char].  The file models both routines and the driver
    [main] with its assertions, then states the properties of the layout. *)

From Stdlib Require Import ZArith List Lia Bool String.
Import ListNotations.
Local Open Scope Z_scope.

(** ** C integer types

    Values of every C integer type are mathematical integers ([Z]); a
    conversion to a narrower type is written out as the wrap-around the
    C standard (or, for signed targets, every two's complement compiler)
    performs. *)
Module CTypes.

Definition UCHAR_MAX : Z := 255.
Definition INT_MIN : Z := - 2 ^ 31.
Definition INT_MAX : Z := 2 ^ 31 - 1.
Definition INT_WIDTH : Z := 32.

Definition is_uchar (z : Z) : Prop := 0 <= z <= UCHAR_MAX.
Definition is_int (z : Z) : Prop := INT_MIN <= z <= INT_MAX.

Definition is_intb (z : Z) : bool := (INT_MIN <=? z) && (z <=? INT_MAX).

(** Conversion to [unsigned char] / [uint8_t]: reduction modulo 256. *)
Definition to_uchar (z : Z) : Z := z mod 256.

(** Conversion to [signed char]: two's complement wrap into [-128,127]. *)
Definition to_schar (z : Z) : Z := (z + 128) mod 256 - 128.

(** Plain [char] is signed on some targets and unsigned on others; the
    choice is a parameter of everything that stores into a [char]. *)
Definition to_char (char_signed : bool) (z : Z) : Z :=
  if char_signed then to_schar z else to_uchar z.

(** [a >> n] on [int] operands.  A shift count that is negative or not
    smaller than the width of [int] is undefined behaviour ([None]); on a
    negative left operand the shift is arithmetic. *)
Definition shr (a n : Z) : option Z :=
  if (0 <=? n) && (n <? INT_WIDTH) then Some (Z.shiftr a n) else None.

(** [a & m] on [int] operands (two's complement, as [Z.land] is). *)
Definition band (a m : Z) : Z := Z.land a m.

(** The [n] integers from [lo] on, in increasing order. *)
Definition Z_range (lo : Z) (n : nat) : list Z :=
  map (fun i => lo + Z.of_nat i) (seq 0 n).

(** All values of [unsigned char]. *)
Definition uchar_values : list Z := Z_range 0 256.

End CTypes.
Import CTypes.

(** ** The record *)

(** [struct RobotHeader]: four [int] members, in declaration order. *)
Record RobotHeader : Type := mkRobotHeader
  { gender : Z;
    version : Z;
    active : Z;
    gigahertz : Z }.

(** ** [parseByte] *)

(** The initialiser list of [parseByte], positionally: [byte >> 7],
    [byte >> 5 & 0b00000011], [byte >> 4 & 0b00000001],
    [byte & 0b00001111].  In C, [>>] binds tighter than [&]. *)
Definition parseByte (byte : Z) : RobotHeader :=
  {| gender := Z.shiftr byte 7;
     version := Z.land (Z.shiftr byte 5) 3;
     active := Z.land (Z.shiftr byte 4) 1;
     gigahertz := Z.land byte 15 |}.

(** Initialising an [int] member: the value must be representable. *)
Definition store_int (z : Z) : option Z :=
  if is_intb z then Some z else None.

(** Sequencing of steps that may be undefined. *)
Definition obind {A B : Type} (c : option A) (k : A -> option B) : option B :=
  match c with
  | Some a => k a
  | None => None
  end.

Notation "x <~ c ;; k" := (obind c (fun x => k))
  (at level 61, c at next level, right associativity).

(** [parseByte] with C's side conditions kept: the argument is converted
    to [unsigned char] on entry, every shift may be undefined, and every
    member must be representable in [int]. *)
Definition parseByte_checked (arg : Z) : option RobotHeader :=
  let byte := to_uchar arg in
  s7 <~ shr byte 7 ;;
  g <~ store_int s7 ;;
  s5 <~ shr byte 5 ;;
  v <~ store_int (band s5 3) ;;
  s4 <~ shr byte 4 ;;
  a <~ store_int (band s4 1) ;;
  z <~ store_int (band byte 15) ;;
  Some (mkRobotHeader g v a z).

(** Every member lies in the range of its bit-field. *)
Definition fields_in_range (h : RobotHeader) : Prop :=
  0 <= gender h <= 1 /\ 0 <= version h <= 3 /\
  0 <= active h <= 1 /\ 0 <= gigahertz h <= 15.

(** Member updates ([hdr.member = v] on a copy). *)
Definition with_gender (g : Z) (h : RobotHeader) : RobotHeader :=
  mkRobotHeader g (version h) (active h) (gigahertz h).

Definition with_version (v : Z) (h : RobotHeader) : RobotHeader :=
  mkRobotHeader (gender h) v (active h) (gigahertz h).

Definition with_active (a : Z) (h : RobotHeader) : RobotHeader :=
  mkRobotHeader (gender h) (version h) a (gigahertz h).

(** The byte whose four bit-fields are [g], [v], [a] and [c]:
    [(g << 7) | (v << 5) | (a << 4) | c]. *)
Definition pack_fields (g v a c : Z) : Z :=
  Z.lor (Z.lor (Z.lor (Z.shiftl g 7) (Z.shiftl v 5)) (Z.shiftl a 4)) c.

(** The members of a record put back at their bit positions. *)
Definition reassemble (h : RobotHeader) : Z :=
  pack_fields (gender h) (version h) (active h) (gigahertz h).

(** Records compared member by member, in declaration order. *)
Definition header_lt (h k : RobotHeader) : Prop :=
  gender h < gender k \/
  (gender h = gender k /\
   (version h < version k \/
    (version h = version k /\
     (active h < active k \/
      (active h = active k /\ gigahertz h < gigahertz k))))).

(** ** Output and assertions

    [printf] appends to standard output and a failed [assert] aborts the
    program.  A computation carries the output written so far and, unless
    it aborted, its value. *)
Module IO.

Inductive event : Type :=
| Printf (fmt : string) (args : list Z).

Definition t (A : Type) : Type := (list event * option A)%type.

Definition ret {A : Type} (a : A) : t A := ([], Some a).

Definition bind {A B : Type} (c : t A) (k : A -> t B) : t B :=
  match c with
  | (out, Some a) => let (out', r) := k a in (out ++ out', r)
  | (out, None) => (out, None)
  end.

Definition printf (fmt : string) (args : list Z) : t unit :=
  ([Printf fmt args], Some tt).

Definition assert (c : bool) : t unit :=
  if c then ret tt else ([], None).

Definition output {A : Type} (c : t A) : list event := fst c.
Definition value {A : Type} (c : t A) : option A := snd c.

End IO.

Notation "x <- c ;; k" := (IO.bind c (fun x => k))
  (at level 61, c at next level, right associativity).
Notation "c ;; k" := (IO.bind c (fun _ => k))
  (at level 61, right associativity).

(** ** [getRobotGender] *)

(** [char mask = 0x80; unsigned char res = byte & mask;] then two
    diagnostics, then [0] or [1] according to [res == 0].  The operands of
    [&] are promoted to [int], so a signed [char] mask enters as [-128]. *)
Definition getRobotGender (char_signed : bool) (byte : Z) : IO.t Z :=
  let mask := to_char char_signed 0x80 in
  let res := to_uchar (band byte mask) in
  IO.printf "The byte we're decoding is %d\n or 0x%x\n" [byte; byte] ;;
  IO.printf "The value after masking for the gender byte: %d, which in hex is 0x%x\n"
            [res; res] ;;
  if res =? 0 then IO.ret 0 else IO.ret 1.

(** ** [main] *)

Definition print_header (h : RobotHeader) : IO.t unit :=
  IO.printf "Gender: %d\n" [gender h] ;;
  IO.printf "Version: %d\n" [version h] ;;
  IO.printf "Active: %d\n" [active h] ;;
  IO.printf "Gigahertz: %d\n" [gigahertz h].

Definition assert_header (h : RobotHeader) (g v a z : Z) : IO.t unit :=
  IO.assert (gender h =? g) ;;
  IO.assert (version h =? v) ;;
  IO.assert (active h =? a) ;;
  IO.assert (gigahertz h =? z).

(** [char bytes[] = {0xFF, 0x92, 0x18}]; each element is converted to
    [unsigned char] where it is passed on.  Falling off the end of [main]
    returns [0]. *)
Definition main (char_signed : bool) : IO.t Z :=
  let bytes := map (to_char char_signed) [0xFF; 0x92; 0x18] in
  let firstByte := to_uchar (nth 0 bytes 0) in
  IO.printf "The value of this byte in decimal and hexidecimal is %d and 0x%x\n"
            [firstByte; firstByte] ;;
  gender <- getRobotGender char_signed firstByte ;;
  IO.printf "The first robots gender is: %d\n" [gender] ;;
  let hdr1 := parseByte firstByte in
  print_header hdr1 ;;
  assert_header hdr1 1 3 1 15 ;;
  let hdr2 := parseByte (to_uchar (nth 1 bytes 0)) in
  print_header hdr2 ;;
  assert_header hdr2 1 0 1 2 ;;
  let hdr3 := parseByte (to_uchar (nth 2 bytes 0)) in
  print_header hdr3 ;;
  assert_header hdr3 0 0 1 8 ;;
  IO.ret 0.

(** ** The lookup table and the encoder of the design notes

    [main.c] stops at [parseByte]: the table of its header comment is never
    declared as data and no routine builds a byte from a record.  Both are
    modelled here as the design notes word them, beside the decode of the
    design notes, which numbers versions from 1. *)
Module Spec.

Inductive error : Type := InvalidArgument.

Inductive result (A : Type) : Type :=
| Ok (a : A)
| Err (e : error).
Arguments Ok {A} a.
Arguments Err {A} e.

(** Modelled from the spec: the 16 x 4 table of LookupTable, which
    [main.c] gives only in its header comment (rows [0000] to [1111],
    columns version 1 to 4). *)
Definition table : list (list Z) :=
  [ [0; 0; 0; 100];
    [0; 0; 100; 200];
    [0; 100; 150; 250];
    [0; 125; 175; 340];
    [5; 125; 180; 365];
    [10; 150; 200; 365];
    [10; 150; 375; 375];
    [10; 150; 400; 400];
    [15; 150; 450; 1000];
    [15; 150; 450; 1150];
    [15; 150; 500; 1250];
    [20; 155; 550; 5000];
    [100; 200; 1560; 9800];
    [150; 250; 2000; 12100];
    [230; 330; 6000; 23500];
    [300; 500; 18000; 235550] ].

(** Modelled from the spec: LookupTable.resolve, absent from [main.c];
    it indexes the table by (version, code) and answers InvalidArgument
    outside version 1..4, code 0..15. *)
Definition resolve (version code : Z) : result Z :=
  if (1 <=? version) && (version <=? 4) && (0 <=? code) && (code <=? 15)
  then Ok (nth (Z.to_nat (version - 1)) (nth (Z.to_nat code) table []) 0)
  else Err InvalidArgument.

(** The declared domain of each field of a record handed to encode. *)
Definition in_domain (r : RobotHeader) : Prop :=
  1 <= version r <= 4 /\ 0 <= gigahertz r <= 15 /\
  (gender r = 0 \/ gender r = 1) /\ (active r = 0 \/ active r = 1).

Definition in_domainb (r : RobotHeader) : bool :=
  (1 <=? version r) && (version r <=? 4)
  && (0 <=? gigahertz r) && (gigahertz r <=? 15)
  && ((gender r =? 0) || (gender r =? 1))
  && ((active r =? 0) || (active r =? 1)).

(** Modelled from the spec: RecordCodec.encode, absent from [main.c]:
    [(gender << 7) | ((version-1) << 5) | (active << 4) | code4] once
    every field is in its domain, InvalidArgument otherwise.  The record
    is the source's [RobotHeader]; its [gigahertz] member is the field
    the design notes call code4. *)
Definition encode (r : RobotHeader) : result Z :=
  if in_domainb r
  then Ok (pack_fields (gender r) (version r - 1) (active r) (gigahertz r))
  else Err InvalidArgument.

(** Modelled from the spec: RecordCodec.decode as its four extraction
    steps word it: gender is the byte shifted right by 7; the version code
    is the byte shifted right by 5 and masked with [0b011], and the version
    is that code plus one; active is the byte shifted right by 4 and masked
    with [0b1]; code4 is the byte masked with [0b1111].  [main.c] has
    [parseByte] in its place, which keeps the version code as it is.  The
    fifth field of the design notes, resolvedValue, is
    [decode_resolvedValue]. *)
Definition decode (byte : Z) : RobotHeader :=
  let code := Z.land (Z.shiftr byte 5) 3 in
  {| gender := Z.shiftr byte 7;
     version := code + 1;
     active := Z.land (Z.shiftr byte 4) 1;
     gigahertz := Z.land byte 15 |}.

(** Modelled from the spec: the resolvedValue that decode fills in,
    [resolve (version, code4)]. *)
Definition decode_resolvedValue (byte : Z) : result Z :=
  resolve (version (decode byte)) (gigahertz (decode byte)).

End Spec.

(** ** Properties *)

(** *** Bytes *)

Lemma Z_range_complete (lo : Z) (n : nat) (x : Z) :
  lo <= x < lo + Z.of_nat n -> In x (Z_range lo n).
Proof.
  intros Hx. unfold Z_range. apply in_map_iff.
  exists (Z.to_nat (x - lo)). split; [lia|]. apply in_seq. lia.
Qed.

Lemma uchar_values_complete (b : Z) : is_uchar b -> In b uchar_values.
Proof.
  unfold is_uchar, UCHAR_MAX, uchar_values. intros Hb.
  apply Z_range_complete. lia.
Qed.

(** [enum x lo n] splits the goal into the [n] cases [x = lo], ...,
    [x = lo + n - 1], provided [lia] finds [x] within these bounds. *)
Ltac enum x lo n :=
  let E := fresh "E" in
  assert (E : In x (Z_range lo n)) by (apply Z_range_complete; lia);
  vm_compute in E;
  repeat match type of E with
         | _ \/ _ => destruct E as [E | E]
         end;
  [ subst x .. | destruct E ].

(** Case analysis over the bytes: a property that holds of each of the
    256 values holds of every [unsigned char]. *)
Lemma uchar_ind (P : Z -> Prop) :
  Forall P uchar_values -> forall b, is_uchar b -> P b.
Proof.
  intros Hall b Hb. rewrite Forall_forall in Hall.
  apply Hall, uchar_values_complete, Hb.
Qed.

Lemma to_uchar_id (b : Z) : is_uchar b -> to_uchar b = b.
Proof. unfold is_uchar, UCHAR_MAX, to_uchar. intros Hb. apply Z.mod_small. lia. Qed.

Lemma to_uchar_is_uchar (z : Z) : is_uchar (to_uchar z).
Proof.
  unfold is_uchar, UCHAR_MAX, to_uchar.
  pose proof (Z.mod_pos_bound z 256 eq_refl). lia.
Qed.

(** *** Shifts and masks as quotients and remainders *)

Lemma parseByte_div_mod (b : Z) :
  parseByte b =
  mkRobotHeader (b / 128) ((b / 32) mod 4) ((b / 16) mod 2) (b mod 16).
Proof.
  unfold parseByte.
  change 3 with (Z.ones 2). change 1 with (Z.ones 1). change 15 with (Z.ones 4).
  rewrite !Z.land_ones, !Z.shiftr_div_pow2 by lia.
  reflexivity.
Qed.

Lemma parseByte_fields_in_range (b : Z) :
  is_uchar b -> fields_in_range (parseByte b).
Proof.
  unfold is_uchar, UCHAR_MAX. intros Hb.
  rewrite parseByte_div_mod. unfold fields_in_range. cbn.
  repeat split; Z.div_mod_to_equations; lia.
Qed.

Lemma parseByte_bits (b : Z) :
  is_uchar b ->
  gender (parseByte b) = Z.b2z (Z.testbit b 7) /\
  active (parseByte b) = Z.b2z (Z.testbit b 4).
Proof.
  unfold is_uchar, UCHAR_MAX. intros Hb.
  rewrite parseByte_div_mod. cbn [gender active].
  rewrite !Z.testbit_spec' by lia.
  change (2 ^ 7) with 128. change (2 ^ 4) with 16.
  split; [|reflexivity].
  symmetry. apply Z.mod_small. Z.div_mod_to_equations; lia.
Qed.

(** With in-range fields the OR of the shifted fields is their weighted
    sum: no two fields overlap. *)
Lemma pack_fields_sum (g v a c : Z) :
  0 <= g <= 1 -> 0 <= v <= 3 -> 0 <= a <= 1 -> 0 <= c <= 15 ->
  pack_fields g v a c = 128 * g + 32 * v + 16 * a + c.
Proof.
  intros Hg Hv Ha Hc.
  enum g 0 2%nat; enum v 0 4%nat; enum a 0 2%nat; enum c 0 16%nat; reflexivity.
Qed.

Lemma reassemble_parseByte (b : Z) :
  is_uchar b -> reassemble (parseByte b) = b.
Proof.
  intros Hb. pose proof (parseByte_fields_in_range b Hb) as (Hg & Hv & Ha & Hc).
  unfold reassemble. rewrite pack_fields_sum by assumption.
  rewrite parseByte_div_mod. cbn [gender version active gigahertz].
  unfold is_uchar, UCHAR_MAX in Hb. clear Hg Hv Ha Hc.
  Z.div_mod_to_equations. lia.
Qed.

(** *** The checked model agrees with the plain one *)

Lemma store_int_small (z : Z) : 0 <= z <= 255 -> store_int z = Some z.
Proof.
  intros Hz. unfold store_int, is_intb, INT_MIN, INT_MAX.
  destruct (Z.leb_spec (- 2 ^ 31) z), (Z.leb_spec z (2 ^ 31 - 1)); cbn; try reflexivity; lia.
Qed.

Lemma shr_defined (a n : Z) : 0 <= n < INT_WIDTH -> shr a n = Some (Z.shiftr a n).
Proof.
  intros Hn. unfold shr.
  destruct (Z.leb_spec 0 n), (Z.ltb_spec n INT_WIDTH); cbn; try reflexivity; lia.
Qed.

Lemma parseByte_checked_eq (arg : Z) :
  parseByte_checked arg = Some (parseByte (to_uchar arg)).
Proof.
  pose proof (to_uchar_is_uchar arg) as Hb.
  pose proof (parseByte_fields_in_range _ Hb) as (Hg & Hv & Ha & Hc).
  unfold parseByte in *. cbn [gender version active gigahertz] in *.
  unfold parseByte_checked, band.
  rewrite !shr_defined by (unfold INT_WIDTH; lia). cbn [obind].
  rewrite (store_int_small (Z.shiftr _ 7)) by lia. cbn [obind].
  rewrite (store_int_small (Z.land (Z.shiftr _ 5) 3)) by lia. cbn [obind].
  rewrite (store_int_small (Z.land (Z.shiftr _ 4) 1)) by lia. cbn [obind].
  rewrite (store_int_small (Z.land _ 15)) by lia. reflexivity.
Qed.

(** *** [getRobotGender] and [main] *)

Ltac uchar_range := unfold is_uchar, UCHAR_MAX; lia.

(** Run [tac] on each of the 256 instances of a goal
    [forall b, is_uchar b -> _]. *)
Ltac forall_bytes tac :=
  apply uchar_ind;
  let l := eval vm_compute in uchar_values in
  change uchar_values with l;
  repeat (apply Forall_cons; [tac|]); apply Forall_nil.

(** Whatever the signedness of [char], masking a byte with the stored
    [0x80] and narrowing back to [unsigned char] leaves bit 7 alone. *)
Lemma masked_top_bit (char_signed : bool) (b : Z) :
  is_uchar b -> to_uchar (band b (to_char char_signed 0x80)) = Z.land b 128.
Proof.
  revert b. destruct char_signed; forall_bytes ltac:(reflexivity).
Qed.

Lemma getRobotGender_value (char_signed : bool) (byte : Z) :
  IO.value (getRobotGender char_signed byte) =
  Some (if to_uchar (band byte (to_char char_signed 0x80)) =? 0 then 0 else 1).
Proof.
  unfold getRobotGender.
  destruct (to_uchar (band byte (to_char char_signed 0x80)) =? 0); reflexivity.
Qed.

Lemma getRobotGender_output (char_signed : bool) (byte : Z) :
  List.length (IO.output (getRobotGender char_signed byte)) = 2%nat.
Proof.
  unfold getRobotGender.
  destruct (to_uchar (band byte (to_char char_signed 0x80)) =? 0); reflexivity.
Qed.

Lemma top_bit_mask (b : Z) :
  is_uchar b -> Z.land b 128 = 128 * Z.shiftr b 7.
Proof.
  unfold is_uchar, UCHAR_MAX. intros Hb.
  apply Z.bits_inj'. intros n Hn.
  rewrite Z.land_spec. change 128 with (2 ^ 7).
  rewrite Z.pow2_bits_eqb by lia.
  rewrite Z.mul_comm, <- Z.shiftl_mul_pow2 by lia.
  destruct (Z.eqb_spec 7 n) as [<- | Hne].
  - rewrite Z.shiftl_spec, Z.shiftr_spec by lia. cbn. apply andb_true_r.
  - rewrite andb_false_r. symmetry.
    destruct (Z.ltb_spec n 7).
    + apply Z.shiftl_spec_low. assumption.
    + rewrite Z.shiftl_spec, Z.shiftr_spec by lia.
      replace (n - 7 + 7) with n by lia.
      apply Z.bits_above_log2; [lia|].
      destruct (Z.eq_dec b 0) as [-> | Hnz]; [cbn; lia|].
      apply Z.log2_lt_pow2; [lia|].
      apply Z.lt_le_trans with (2 ^ 8); [cbn; lia|].
      apply Z.pow_le_mono_r; lia.
Qed.

(** Every [assert] of [main] holds, on either kind of [char]: the driver
    runs to its end and returns 0. *)
Lemma main_asserts_pass (char_signed : bool) :
  IO.value (main char_signed) = Some 0.
Proof. destruct char_signed; vm_compute; reflexivity. Qed.

Lemma main_output_length (char_signed : bool) :
  List.length (IO.output (main char_signed)) = 16%nat.
Proof. destruct char_signed; vm_compute; reflexivity. Qed.

(** *** The table and the encoder *)

Lemma in_domainb_spec (r : RobotHeader) :
  Spec.in_domainb r = true <-> Spec.in_domain r.
Proof.
  unfold Spec.in_domainb, Spec.in_domain.
  rewrite !andb_true_iff, !orb_true_iff, !Z.leb_le, !Z.eqb_eq. tauto.
Qed.

Lemma encode_in_domain (r : RobotHeader) :
  Spec.in_domain r ->
  Spec.encode r =
  Spec.Ok (128 * gender r + 32 * (version r - 1) + 16 * active r + gigahertz r).
Proof.
  intros Hr. unfold Spec.encode.
  rewrite (proj2 (in_domainb_spec r) Hr).
  destruct Hr as (Hv & Hc & Hg & Ha).
  rewrite pack_fields_sum by lia. reflexivity.
Qed.

Lemma encode_out_of_domain (r : RobotHeader) :
  ~ Spec.in_domain r -> Spec.encode r = Spec.Err Spec.InvalidArgument.
Proof.
  intros Hr. unfold Spec.encode.
  destruct (Spec.in_domainb r) eqn:E; [|reflexivity].
  apply in_domainb_spec in E. contradiction.
Qed.

(** The table is dense: sixteen rows of four entries. *)
Lemma table_shape :
  List.length Spec.table = 16%nat /\
  Forall (fun row => List.length row = 4%nat) Spec.table.
Proof. split; [reflexivity|]. repeat constructor. Qed.

Lemma resolve_defined (v c : Z) :
  1 <= v <= 4 -> 0 <= c <= 15 ->
  exists n, Spec.resolve v c = Spec.Ok n /\
            nth_error Spec.table (Z.to_nat c) <> None /\
            (forall row, nth_error Spec.table (Z.to_nat c) = Some row ->
                         nth_error row (Z.to_nat (v - 1)) = Some n).
Proof.
  intros Hv Hc.
  enum v 1 4%nat; enum c 0 16%nat;
    (eexists; split; [reflexivity|]; split;
     [discriminate | intros row Hrow; injection Hrow as <-; reflexivity]).
Qed.

Lemma resolve_out_of_domain (v c : Z) :
  ~ (1 <= v <= 4 /\ 0 <= c <= 15) -> Spec.resolve v c = Spec.Err Spec.InvalidArgument.
Proof.
  intros H. unfold Spec.resolve.
  destruct (Z.leb_spec 1 v), (Z.leb_spec v 4), (Z.leb_spec 0 c), (Z.leb_spec c 15);
    cbn; try reflexivity; lia.
Qed.

(** An in-domain record encodes to a byte. *)
Lemma encode_produces_byte (r : RobotHeader) :
  Spec.in_domain r -> exists x, Spec.encode r = Spec.Ok x /\ is_uchar x.
Proof.
  intros Hr. eexists. split; [apply encode_in_domain, Hr|].
  destruct Hr as (Hv & Hc & Hg & Ha). unfold is_uchar, UCHAR_MAX. lia.
Qed.

(** Complementing a one-bit field of an in-domain record toggles one bit
    of the encoded byte. *)
Lemma encode_flip_active (r : RobotHeader) :
  Spec.in_domain r ->
  exists x, Spec.encode r = Spec.Ok x /\
            Spec.encode (with_active (1 - active r) r) = Spec.Ok (Z.lxor x (2 ^ 4)).
Proof.
  intros Hr. eexists. split; [apply encode_in_domain, Hr|].
  destruct r as [g v a c]. destruct Hr as (Hv & Hc & Hg & Ha).
  cbn [gender version active gigahertz] in *.
  enum g 0 2%nat; enum v 1 4%nat; enum a 0 2%nat; enum c 0 16%nat; reflexivity.
Qed.

Lemma encode_flip_gender (r : RobotHeader) :
  Spec.in_domain r ->
  exists x, Spec.encode r = Spec.Ok x /\
            Spec.encode (with_gender (1 - gender r) r) = Spec.Ok (Z.lxor x (2 ^ 7)).
Proof.
  intros Hr. eexists. split; [apply encode_in_domain, Hr|].
  destruct r as [g v a c]. destruct Hr as (Hv & Hc & Hg & Ha).
  cbn [gender version active gigahertz] in *.
  enum g 0 2%nat; enum v 1 4%nat; enum a 0 2%nat; enum c 0 16%nat; reflexivity.
Qed.

(** XOR with a power of two complements that bit and no other. *)
Lemma lxor_pow2_bits (x k i : Z) :
  0 <= k ->
  Z.testbit (Z.lxor x (2 ^ k)) i =
  if i =? k then negb (Z.testbit x i) else Z.testbit x i.
Proof.
  intros Hk. rewrite Z.lxor_spec, Z.pow2_bits_eqb by assumption.
  rewrite Z.eqb_sym.
  destruct (i =? k); [apply xorb_true_r | apply xorb_false_r].
Qed.

(** ** The claims *)

(** C1 (as amended): for every input byte [b], [parseByte] stores the
    2-bit field at bits 6-5 as it stands, [version = (b >> 5) & 0b11], with
    nothing added; the version member of every decoded record lies in
    [0,3], code 0 standing for version 1 and code 3 for version 4. *)
Theorem parseByte_version_is_raw_code (b : Z) :
  is_uchar b ->
  version (parseByte b) = Z.land (Z.shiftr b 5) 3 /\
  0 <= version (parseByte b) <= 3 /\
  1 <= version (parseByte b) + 1 <= 4.
Proof.
  intros Hb. split; [reflexivity|].
  pose proof (parseByte_fields_in_range b Hb) as (_ & Hv & _). lia.
Qed.

Lemma parseByte_version_is_raw_code_witness :
  is_uchar 0xFF /\
  version (parseByte 0xFF) = Z.land (Z.shiftr 0xFF 5) 3 /\
  0 <= version (parseByte 0xFF) <= 3 /\
  1 <= version (parseByte 0xFF) + 1 <= 4.
Proof.
  split; [uchar_range | apply (parseByte_version_is_raw_code 0xFF); uchar_range].
Defined.

(** C1 (as stated) fails: at [0xFF] the version member is 3, not the
    extracted code plus one, and at [0x92] it is 0, outside [1,4]. *)
Lemma parseByte_version_not_code_plus_one :
  version (parseByte 0xFF) <> Z.land (Z.shiftr 0xFF 5) 3 + 1 /\
  ~ (1 <= version (parseByte 0x92) <= 4).
Proof. split; vm_compute; [discriminate | intros [H _]; apply H; reflexivity]. Qed.

(** C2 (as amended): [parseByte] stores no resolved value.  For every
    byte [b] the record holds four members, none above 15, and
    [gigahertz] is the raw 4-bit code [b & 0b1111]; the table entry is not
    a member but is determined by the [version] and [gigahertz] members
    alone, as [resolve (version + 1) gigahertz], defined for every byte. *)
Theorem parseByte_stores_raw_code (b : Z) :
  is_uchar b ->
  gigahertz (parseByte b) = Z.land b 15 /\
  (forall member, In member [gender; version; active; gigahertz] ->
                  0 <= member (parseByte b) <= 15) /\
  exists n,
    Spec.resolve (version (parseByte b) + 1) (gigahertz (parseByte b)) = Spec.Ok n /\
    forall b', is_uchar b' ->
               version (parseByte b') = version (parseByte b) ->
               gigahertz (parseByte b') = gigahertz (parseByte b) ->
               Spec.resolve (version (parseByte b') + 1) (gigahertz (parseByte b'))
               = Spec.Ok n.
Proof.
  intros Hb.
  pose proof (parseByte_fields_in_range b Hb) as (Hg & Hv & Ha & Hc).
  split; [reflexivity|]. split.
  - intros member [<- | [<- | [<- | [<- | []]]]]; lia.
  - destruct (resolve_defined (version (parseByte b) + 1) (gigahertz (parseByte b)))
      as (n & Hn & _); [lia | lia |].
    exists n. split; [exact Hn|].
    intros b' _ -> ->. exact Hn.
Qed.

Lemma parseByte_stores_raw_code_witness :
  is_uchar 0xFF /\
  gigahertz (parseByte 0xFF) = Z.land 0xFF 15 /\
  (forall member, In member [gender; version; active; gigahertz] ->
                  0 <= member (parseByte 0xFF) <= 15) /\
  exists n,
    Spec.resolve (version (parseByte 0xFF) + 1) (gigahertz (parseByte 0xFF))
    = Spec.Ok n /\
    forall b', is_uchar b' ->
               version (parseByte b') = version (parseByte 0xFF) ->
               gigahertz (parseByte b') = gigahertz (parseByte 0xFF) ->
               Spec.resolve (version (parseByte b') + 1) (gigahertz (parseByte b'))
               = Spec.Ok n.
Proof.
  split; [uchar_range | apply (parseByte_stores_raw_code 0xFF); uchar_range].
Defined.

(** C2 (as stated) fails: no member of the record decoded from [0xFF]
    is the table entry, neither the one at (version 4, code 15) nor the
    one found under the record's own two members. *)
Lemma parseByte_0xFF_holds_no_table_entry :
  ~ exists member,
      In member [gender; version; active; gigahertz] /\
      (Spec.resolve 4 15 = Spec.Ok (member (parseByte 0xFF)) \/
       Spec.resolve (version (parseByte 0xFF)) (gigahertz (parseByte 0xFF))
       = Spec.Ok (member (parseByte 0xFF))).
Proof.
  intros (member & Hin & H).
  destruct Hin as [<- | [<- | [<- | [<- | []]]]];
    vm_compute in H; destruct H as [H | H]; discriminate H.
Qed.

(** C3 (as amended): decoding [0xFF] yields gender 1 (male), version 3
    (the raw code of version 4), active 1 and code 15, and decoding [0x92]
    yields gender 1, version 0 (the raw code of version 1), active 1 and
    code 2; these are the values [main] asserts, and it runs to its end.
    The record carries no resolved value; the table entries for the two
    records are 235550 and 0. *)
Theorem parseByte_literal_cases :
  parseByte 0xFF = mkRobotHeader 1 3 1 15 /\
  parseByte 0x92 = mkRobotHeader 1 0 1 2 /\
  (forall char_signed, IO.value (main char_signed) = Some 0) /\
  Spec.resolve (version (parseByte 0xFF) + 1) (gigahertz (parseByte 0xFF))
  = Spec.Ok 235550 /\
  Spec.resolve (version (parseByte 0x92) + 1) (gigahertz (parseByte 0x92))
  = Spec.Ok 0.
Proof.
  split; [reflexivity|]. split; [reflexivity|].
  split; [exact main_asserts_pass|]. split; reflexivity.
Qed.

(** C3 (as stated) fails: the version decoded from [0xFF] is not 4 and
    the version decoded from [0x92] is not 1; asserting the stated values
    the way [main] asserts its own would abort the program. *)
Lemma parseByte_literal_versions_differ :
  version (parseByte 0xFF) <> 4 /\
  version (parseByte 0x92) <> 1 /\
  IO.value (assert_header (parseByte 0xFF) 1 4 1 15) = None /\
  IO.value (assert_header (parseByte 0x92) 1 1 1 2) = None.
Proof.
  split; [vm_compute; discriminate|].
  split; [vm_compute; discriminate|].
  split; reflexivity.
Qed.

(** C9: the four members produced by [parseByte] keep all of the input:
    for every byte [b],
    [(gender << 7) | (version << 5) | (active << 4) | gigahertz] is [b]
    again, so [parseByte] is injective on [0,255]. *)
Theorem parseByte_lossless (b : Z) :
  is_uchar b ->
  Z.lor (Z.lor (Z.lor (Z.shiftl (gender (parseByte b)) 7)
                      (Z.shiftl (version (parseByte b)) 5))
               (Z.shiftl (active (parseByte b)) 4))
        (gigahertz (parseByte b)) = b /\
  forall b', is_uchar b' -> parseByte b' = parseByte b -> b' = b.
Proof.
  intros Hb. split.
  - exact (reassemble_parseByte b Hb).
  - intros b' Hb' Heq.
    rewrite <- (reassemble_parseByte b' Hb'), <- (reassemble_parseByte b Hb).
    f_equal. exact Heq.
Qed.

Lemma parseByte_lossless_witness :
  is_uchar 0x18 /\
  Z.lor (Z.lor (Z.lor (Z.shiftl (gender (parseByte 0x18)) 7)
                      (Z.shiftl (version (parseByte 0x18)) 5))
               (Z.shiftl (active (parseByte 0x18)) 4))
        (gigahertz (parseByte 0x18)) = 0x18 /\
  forall b', is_uchar b' -> parseByte b' = parseByte 0x18 -> b' = 0x18.
Proof.
  split; [uchar_range | apply (parseByte_lossless 0x18); uchar_range].
Defined.


(** The decode of the design notes is [parseByte] with one added to the
    version member. *)
Lemma decode_parseByte (b : Z) :
  Spec.decode b = with_version (version (parseByte b) + 1) (parseByte b).
Proof. reflexivity. Qed.

(** A decoded record is always inside the encoder's domain, and its
    resolved value is always defined. *)
Lemma decode_in_domain (b : Z) :
  is_uchar b ->
  Spec.in_domain (Spec.decode b) /\
  exists n, Spec.decode_resolvedValue b = Spec.Ok n.
Proof.
  intros Hb. pose proof (parseByte_fields_in_range b Hb) as (Hg & Hv & Ha & Hc).
  rewrite decode_parseByte. unfold Spec.decode_resolvedValue.
  rewrite decode_parseByte.
  cbn [with_version gender version active gigahertz Spec.in_domain].
  split; [unfold Spec.in_domain; cbn [with_version gender version active gigahertz]; lia|].
  destruct (resolve_defined (version (parseByte b) + 1) (gigahertz (parseByte b)))
    as (n & Hn & _); [lia | lia |].
  exists n. exact Hn.
Qed.



(** The encoder reads the version number, so it is not the inverse of
    [parseByte] itself, whose version member is the raw code: the record
    [parseByte] returns for [0x00] is outside its domain, and the one for
    [0xFF] encodes to [0xDF]. *)
Lemma encode_parseByte_not_identity :
  Spec.encode (parseByte 0x00) = Spec.Err Spec.InvalidArgument /\
  Spec.encode (parseByte 0xFF) = Spec.Ok 0xDF /\
  Spec.encode (parseByte 0xFF) <> Spec.Ok 0xFF.
Proof. repeat split. vm_compute. discriminate. Qed.

Lemma encode_parseByte_never_identity (b : Z) :
  is_uchar b -> Spec.encode (parseByte b) <> Spec.Ok b.
Proof.
  revert b. forall_bytes ltac:(vm_compute; discriminate).
Qed.

(** C5: for every input byte [b], [parseByte] takes gender as [b >> 7]
    with no mask, a value in {0,1} (bit 7); active as [(b >> 4) & 1]
    (bit 4); and the 4-bit code as [b & 0b1111] with no shift (the low
    four bits). *)
Theorem parseByte_gender_active_code (b : Z) :
  is_uchar b ->
  (gender (parseByte b) = Z.shiftr b 7 /\
   (gender (parseByte b) = 0 \/ gender (parseByte b) = 1) /\
   gender (parseByte b) = Z.b2z (Z.testbit b 7)) /\
  (active (parseByte b) = Z.land (Z.shiftr b 4) 1 /\
   active (parseByte b) = Z.b2z (Z.testbit b 4)) /\
  (gigahertz (parseByte b) = Z.land b 15 /\
   gigahertz (parseByte b) = b mod 16).
Proof.
  intros Hb.
  pose proof (parseByte_fields_in_range b Hb) as (Hg & _).
  pose proof (parseByte_bits b Hb) as (Hg7 & Ha4).
  repeat split; try assumption; try lia.
  rewrite parseByte_div_mod. reflexivity.
Qed.

Lemma parseByte_gender_active_code_witness :
  is_uchar 0x92 /\
  (gender (parseByte 0x92) = Z.shiftr 0x92 7 /\
   (gender (parseByte 0x92) = 0 \/ gender (parseByte 0x92) = 1) /\
   gender (parseByte 0x92) = Z.b2z (Z.testbit 0x92 7)) /\
  (active (parseByte 0x92) = Z.land (Z.shiftr 0x92 4) 1 /\
   active (parseByte 0x92) = Z.b2z (Z.testbit 0x92 4)) /\
  (gigahertz (parseByte 0x92) = Z.land 0x92 15 /\
   gigahertz (parseByte 0x92) = 0x92 mod 16).
Proof.
  split; [uchar_range | apply (parseByte_gender_active_code 0x92); uchar_range].
Defined.

(** C6 (as amended): decoding is total and never fails.  For every byte
    value in [0,255] [parseByte] returns a record, through no undefined
    shift and with every member representable in [int]; its four members
    are all populated, each within the range of its bit-field: gender and
    active in {0,1}, version (the raw code) in [0,3], gigahertz in [0,15].
    There is no failure path: the checked model never answers [None],
    whatever integer is passed. *)
Theorem parseByte_total (b : Z) :
  is_uchar b ->
  (exists h,
      parseByte_checked b = Some h /\ h = parseByte b /\
      fields_in_range h /\
      is_int (gender h) /\ is_int (version h) /\
      is_int (active h) /\ is_int (gigahertz h)) /\
  (forall arg, parseByte_checked arg <> None).
Proof.
  intros Hb. split.
  - exists (parseByte b).
    rewrite parseByte_checked_eq, (to_uchar_id b Hb).
    pose proof (parseByte_fields_in_range b Hb) as Hr.
    repeat split; try apply Hr;
      destruct Hr as (Hg & Hv & Ha & Hc); unfold INT_MIN, INT_MAX; lia.
  - intros arg. rewrite parseByte_checked_eq. discriminate.
Qed.

Lemma parseByte_total_witness :
  is_uchar 0x18 /\
  (exists h,
      parseByte_checked 0x18 = Some h /\ h = parseByte 0x18 /\
      fields_in_range h /\
      is_int (gender h) /\ is_int (version h) /\
      is_int (active h) /\ is_int (gigahertz h)) /\
  (forall arg, parseByte_checked arg <> None).
Proof.
  split; [uchar_range | apply (parseByte_total 0x18); uchar_range].
Defined.

(** C6 (as stated) fails: the record returned for [0x18] is not a valid,
    fully-populated record of the design notes.  Its version is 0, outside
    [1,4], so it is outside the declared domain, and none of its members
    is the resolved value, the table entry 15 at version 1, code 8. *)
Lemma parseByte_0x18_not_valid_record :
  ~ (1 <= version (parseByte 0x18) <= 4) /\
  ~ Spec.in_domain (parseByte 0x18) /\
  Spec.decode_resolvedValue 0x18 = Spec.Ok 15 /\
  forall member, In member [gender; version; active; gigahertz] ->
                 member (parseByte 0x18) <> 15.
Proof.
  split; [vm_compute; intros [H _]; apply H; reflexivity|].
  split; [unfold Spec.in_domain; vm_compute; intros [[H _] _]; apply H; reflexivity|].
  split; [reflexivity|].
  intros member [<- | [<- | [<- | [<- | []]]]]; vm_compute; discriminate.
Qed.

(** C7: the encoder fails with InvalidArgument exactly when some field of
    the record is outside its declared domain (version outside [1,4],
    code outside [0,15], gender outside {0,1}, active outside {0,1}); a
    record with version 5, or code 16, or gender 2 is rejected; and
    InvalidArgument is the only error there is: the encoder raises no
    other, and decoding raises none. *)
Theorem encode_invalid_argument (r : RobotHeader) :
  (Spec.encode r = Spec.Err Spec.InvalidArgument <->
   ~ (1 <= version r <= 4) \/ ~ (0 <= gigahertz r <= 15) \/
   ~ (gender r = 0 \/ gender r = 1) \/ ~ (active r = 0 \/ active r = 1)) /\
  (version r = 5 \/ gigahertz r = 16 \/ gender r = 2 ->
   Spec.encode r = Spec.Err Spec.InvalidArgument) /\
  (forall e, Spec.encode r = Spec.Err e -> e = Spec.InvalidArgument) /\
  (forall arg, parseByte_checked arg <> None).
Proof.
  split; [split|split; [|split]].
  - unfold Spec.encode. destruct (Spec.in_domainb r) eqn:E; [discriminate|].
    intros _.
    assert (Hn : ~ Spec.in_domain r)
      by (intros Hr; apply in_domainb_spec in Hr; congruence).
    unfold Spec.in_domain in Hn. lia.
  - intros H. apply encode_out_of_domain. unfold Spec.in_domain. lia.
  - intros H. apply encode_out_of_domain. unfold Spec.in_domain. lia.
  - intros []. reflexivity.
  - intros arg. rewrite parseByte_checked_eq. discriminate.
Qed.

Lemma encode_invalid_argument_witness :
  (version (mkRobotHeader 1 5 1 15) = 5 \/
   gigahertz (mkRobotHeader 1 5 1 15) = 16 \/
   gender (mkRobotHeader 1 5 1 15) = 2) /\
  Spec.encode (mkRobotHeader 1 5 1 15) = Spec.Err Spec.InvalidArgument /\
  Spec.encode (mkRobotHeader 1 4 1 16) = Spec.Err Spec.InvalidArgument /\
  Spec.encode (mkRobotHeader 2 4 1 15) = Spec.Err Spec.InvalidArgument.
Proof.
  split; [left; reflexivity|]. split; [|split].
  - apply (proj1 (proj2 (encode_invalid_argument (mkRobotHeader 1 5 1 15)))).
    left. reflexivity.
  - apply (proj1 (proj2 (encode_invalid_argument (mkRobotHeader 1 4 1 16)))).
    right. left. reflexivity.
  - apply (proj1 (proj2 (encode_invalid_argument (mkRobotHeader 2 4 1 15)))).
    right. right. reflexivity.
Defined.

(** C8: for every valid record [r], complementing only the active member
    (respectively only the gender member) and encoding again changes bit 4
    (respectively bit 7) of the byte and leaves every other bit of
    [encode r] as it was. *)
Theorem encode_field_isolation (r : RobotHeader) :
  Spec.in_domain r ->
  exists x xa xg,
    Spec.encode r = Spec.Ok x /\
    Spec.encode (with_active (1 - active r) r) = Spec.Ok xa /\
    Spec.encode (with_gender (1 - gender r) r) = Spec.Ok xg /\
    (forall i, i <> 4 -> Z.testbit xa i = Z.testbit x i) /\
    Z.testbit xa 4 = negb (Z.testbit x 4) /\
    (forall i, i <> 7 -> Z.testbit xg i = Z.testbit x i) /\
    Z.testbit xg 7 = negb (Z.testbit x 7).
Proof.
  intros Hr.
  destruct (encode_flip_active r Hr) as (x & Hx & Hxa).
  destruct (encode_flip_gender r Hr) as (x' & Hx' & Hxg).
  assert (x' = x) as -> by congruence.
  exists x, (Z.lxor x (2 ^ 4)), (Z.lxor x (2 ^ 7)).
  repeat split; try assumption.
  - intros i Hi. rewrite lxor_pow2_bits by lia.
    destruct (Z.eqb_spec i 4); [contradiction | reflexivity].
  - rewrite lxor_pow2_bits by lia. reflexivity.
  - intros i Hi. rewrite lxor_pow2_bits by lia.
    destruct (Z.eqb_spec i 7); [contradiction | reflexivity].
  - rewrite lxor_pow2_bits by lia. reflexivity.
Qed.

Lemma encode_field_isolation_witness :
  Spec.in_domain (mkRobotHeader 1 1 1 2) /\
  exists x xa xg,
    Spec.encode (mkRobotHeader 1 1 1 2) = Spec.Ok x /\
    Spec.encode (with_active (1 - 1) (mkRobotHeader 1 1 1 2)) = Spec.Ok xa /\
    Spec.encode (with_gender (1 - 1) (mkRobotHeader 1 1 1 2)) = Spec.Ok xg /\
    (forall i, i <> 4 -> Z.testbit xa i = Z.testbit x i) /\
    Z.testbit xa 4 = negb (Z.testbit x 4) /\
    (forall i, i <> 7 -> Z.testbit xg i = Z.testbit x i) /\
    Z.testbit xg 7 = negb (Z.testbit x 7).
Proof.
  split; [unfold Spec.in_domain; cbn; lia|].
  apply (encode_field_isolation (mkRobotHeader 1 1 1 2)).
  unfold Spec.in_domain; cbn; lia.
Defined.

(** C10: the two ways of reading the gender agree.  For every byte [b]
    in [0,255], [getRobotGender b] returns what [parseByte b] stores in
    gender, 0 when bit 7 of [b] is clear and 1 when it is set, whether the
    plain [char] holding the mask [0x80] is signed or unsigned. *)
Theorem getRobotGender_agrees_with_parseByte (char_signed : bool) (b : Z) :
  is_uchar b ->
  IO.value (getRobotGender char_signed b) = Some (gender (parseByte b)) /\
  gender (parseByte b) = (if Z.testbit b 7 then 1 else 0).
Proof.
  intros Hb. split.
  - rewrite getRobotGender_value, masked_top_bit, top_bit_mask by assumption.
    pose proof (parseByte_fields_in_range b Hb) as (Hg & _).
    change (gender (parseByte b)) with (Z.shiftr b 7) in *.
    destruct (Z.eqb_spec (128 * Z.shiftr b 7) 0); f_equal; lia.
  - rewrite (proj1 (parseByte_bits b Hb)). destruct (Z.testbit b 7); reflexivity.
Qed.

Lemma getRobotGender_agrees_with_parseByte_witness :
  is_uchar 0xFF /\
  IO.value (getRobotGender true 0xFF) = Some (gender (parseByte 0xFF)) /\
  gender (parseByte 0xFF) = (if Z.testbit 0xFF 7 then 1 else 0).
Proof.
  split; [uchar_range|].
  apply (getRobotGender_agrees_with_parseByte true 0xFF); uchar_range.
Defined.

(** ** Further properties of [parseByte] and [getRobotGender] *)

Lemma parseByte_weighted_sum (b : Z) :
  is_uchar b ->
  b = 128 * gender (parseByte b) + 32 * version (parseByte b)
      + 16 * active (parseByte b) + gigahertz (parseByte b).
Proof.
  intros Hb. pose proof (parseByte_fields_in_range b Hb) as (Hg & Hv & Ha & Hc).
  rewrite <- pack_fields_sum by assumption.
  symmetry. exact (reassemble_parseByte b Hb).
Qed.

Lemma parseByte_reassemble (h : RobotHeader) :
  fields_in_range h -> is_uchar (reassemble h) /\ parseByte (reassemble h) = h.
Proof.
  destruct h as [g v a c]. intros (Hg & Hv & Ha & Hc).
  cbn [gender version active gigahertz] in *.
  enum g 0 2%nat; enum v 0 4%nat; enum a 0 2%nat; enum c 0 16%nat;
    (split; [vm_compute; split; discriminate | reflexivity]).
Qed.

(** X1: every record whose members fit their bit-fields is what
    [parseByte] returns for exactly one byte: the layout has no
    unreachable combination and no two bytes share a record. *)
Theorem parseByte_reaches_every_record (h : RobotHeader) :
  fields_in_range h ->
  exists b, is_uchar b /\ parseByte b = h /\
            forall b', is_uchar b' -> parseByte b' = h -> b' = b.
Proof.
  intros Hh. destruct (parseByte_reassemble h Hh) as (Hb & Hp).
  exists (reassemble h). split; [exact Hb|]. split; [exact Hp|].
  intros b' Hb' <-. symmetry. exact (reassemble_parseByte b' Hb').
Qed.

Lemma parseByte_reaches_every_record_witness :
  fields_in_range (mkRobotHeader 0 0 1 8) /\
  exists b, is_uchar b /\ parseByte b = mkRobotHeader 0 0 1 8 /\
            forall b', is_uchar b' -> parseByte b' = mkRobotHeader 0 0 1 8 -> b' = b.
Proof.
  split; [unfold fields_in_range; cbn; lia|].
  apply (parseByte_reaches_every_record (mkRobotHeader 0 0 1 8)).
  unfold fields_in_range; cbn; lia.
Defined.

(** The AND masks that select the four fields in place. *)
Lemma masks_in_place (b : Z) :
  is_uchar b ->
  Z.land b 0x80 = 128 * gender (parseByte b) /\
  Z.land b 0x60 = 32 * version (parseByte b) /\
  Z.land b 0x10 = 16 * active (parseByte b) /\
  Z.land b 0x0F = gigahertz (parseByte b).
Proof.
  revert b. forall_bytes ltac:(repeat split).
Qed.

(** X2: each member of the record depends on its own bits of the byte
    and on no other: masking the byte in place with [0x80], [0x60],
    [0x10], [0x0F] gives the member shifted back to its position, and two
    bytes decode to the same gender (version, active, gigahertz) exactly
    when they agree under that mask. *)
Theorem parseByte_field_masks (b b' : Z) :
  is_uchar b -> is_uchar b' ->
  (Z.land b 0x80 = Z.shiftl (gender (parseByte b)) 7 /\
   Z.land b 0x60 = Z.shiftl (version (parseByte b)) 5 /\
   Z.land b 0x10 = Z.shiftl (active (parseByte b)) 4 /\
   Z.land b 0x0F = gigahertz (parseByte b)) /\
  (gender (parseByte b) = gender (parseByte b') <-> Z.land b 0x80 = Z.land b' 0x80) /\
  (version (parseByte b) = version (parseByte b') <-> Z.land b 0x60 = Z.land b' 0x60) /\
  (active (parseByte b) = active (parseByte b') <-> Z.land b 0x10 = Z.land b' 0x10) /\
  (gigahertz (parseByte b) = gigahertz (parseByte b') <-> Z.land b 0x0F = Z.land b' 0x0F).
Proof.
  intros Hb Hb'.
  destruct (masks_in_place b Hb) as (Eg & Ev & Ea & Ec).
  destruct (masks_in_place b' Hb') as (Eg' & Ev' & Ea' & Ec').
  rewrite !Z.shiftl_mul_pow2 by lia.
  change (2 ^ 7) with 128. change (2 ^ 5) with 32. change (2 ^ 4) with 16.
  rewrite Eg, Ev, Ea, Ec, Eg', Ev', Ea', Ec'.
  repeat split; lia.
Qed.

Lemma parseByte_field_masks_witness :
  is_uchar 0x92 /\ is_uchar 0xFF /\
  (Z.land 0x92 0x80 = Z.shiftl (gender (parseByte 0x92)) 7 /\
   Z.land 0x92 0x60 = Z.shiftl (version (parseByte 0x92)) 5 /\
   Z.land 0x92 0x10 = Z.shiftl (active (parseByte 0x92)) 4 /\
   Z.land 0x92 0x0F = gigahertz (parseByte 0x92)) /\
  (gender (parseByte 0x92) = gender (parseByte 0xFF)
   <-> Z.land 0x92 0x80 = Z.land 0xFF 0x80) /\
  (version (parseByte 0x92) = version (parseByte 0xFF)
   <-> Z.land 0x92 0x60 = Z.land 0xFF 0x60) /\
  (active (parseByte 0x92) = active (parseByte 0xFF)
   <-> Z.land 0x92 0x10 = Z.land 0xFF 0x10) /\
  (gigahertz (parseByte 0x92) = gigahertz (parseByte 0xFF)
   <-> Z.land 0x92 0x0F = Z.land 0xFF 0x0F).
Proof.
  split; [uchar_range|]. split; [uchar_range|].
  apply (parseByte_field_masks 0x92 0xFF); uchar_range.
Defined.

(** X3: complementing bit 7 of a byte complements the decoded gender
    and leaves version, active and gigahertz as they were; complementing
    bit 4 does the same for active.  The result is again a byte. *)
Theorem parseByte_bit_toggles (b : Z) :
  is_uchar b ->
  (is_uchar (Z.lxor b 0x80) /\
   parseByte (Z.lxor b 0x80) = with_gender (1 - gender (parseByte b)) (parseByte b)) /\
  (is_uchar (Z.lxor b 0x10) /\
   parseByte (Z.lxor b 0x10) = with_active (1 - active (parseByte b)) (parseByte b)).
Proof.
  revert b.
  forall_bytes ltac:(split; (split; [vm_compute; split; discriminate | reflexivity])).
Qed.

Lemma parseByte_bit_toggles_witness :
  is_uchar 0x18 /\
  (is_uchar (Z.lxor 0x18 0x80) /\
   parseByte (Z.lxor 0x18 0x80)
   = with_gender (1 - gender (parseByte 0x18)) (parseByte 0x18)) /\
  (is_uchar (Z.lxor 0x18 0x10) /\
   parseByte (Z.lxor 0x18 0x10)
   = with_active (1 - active (parseByte 0x18)) (parseByte 0x18)).
Proof.
  split; [uchar_range | apply (parseByte_bit_toggles 0x18); uchar_range].
Defined.

(** X4: [parseByte] preserves order: one byte is smaller than another
    exactly when its record comes first member by member, gender before
    version before active before gigahertz. *)
Theorem parseByte_order (b b' : Z) :
  is_uchar b -> is_uchar b' ->
  (b < b' <-> header_lt (parseByte b) (parseByte b')).
Proof.
  intros Hb Hb'.
  pose proof (parseByte_fields_in_range b Hb) as (Hg & Hv & Ha & Hc).
  pose proof (parseByte_fields_in_range b' Hb') as (Hg' & Hv' & Ha' & Hc').
  pose proof (parseByte_weighted_sum b Hb) as E.
  pose proof (parseByte_weighted_sum b' Hb') as E'.
  unfold header_lt.
  set (g := gender (parseByte b)) in *. set (v := version (parseByte b)) in *.
  set (a := active (parseByte b)) in *. set (c := gigahertz (parseByte b)) in *.
  set (g' := gender (parseByte b')) in *. set (v' := version (parseByte b')) in *.
  set (a' := active (parseByte b')) in *. set (c' := gigahertz (parseByte b')) in *.
  clearbody g v a c g' v' a' c'. lia.
Qed.

Lemma parseByte_order_witness :
  is_uchar 0x18 /\ is_uchar 0x92 /\
  (0x18 < 0x92 <-> header_lt (parseByte 0x18) (parseByte 0x92)).
Proof.
  split; [uchar_range|]. split; [uchar_range|].
  apply (parseByte_order 0x18 0x92); uchar_range.
Defined.

(** X5: [getRobotGender] behaves the same on a target whose plain [char]
    is signed and on one where it is unsigned.  On every byte it returns
    without aborting, 1 exactly for the bytes from 128 up and 0 for the
    others, after printing two diagnostics: the byte, then the masked
    value, which is 128 times the result. *)
Theorem getRobotGender_behaviour (char_signed : bool) (b : Z) :
  is_uchar b ->
  getRobotGender char_signed b = getRobotGender (negb char_signed) b /\
  exists r fmt1 fmt2,
    IO.value (getRobotGender char_signed b) = Some r /\
    (r = 1 <-> 128 <= b) /\ (r = 0 <-> b < 128) /\
    IO.output (getRobotGender char_signed b)
    = [IO.Printf fmt1 [b; b]; IO.Printf fmt2 [128 * r; 128 * r]].
Proof.
  intros Hb.
  assert (Hmask : forall cs,
             to_uchar (band b (to_char cs 0x80)) = 128 * gender (parseByte b)).
  { intros cs. rewrite masked_top_bit by assumption.
    apply (masks_in_place b Hb). }
  pose proof (parseByte_fields_in_range b Hb) as (Hg & Hv & Ha & Hc).
  pose proof (parseByte_weighted_sum b Hb) as E.
  unfold getRobotGender. cbv zeta. rewrite !Hmask.
  set (g := gender (parseByte b)) in *. clearbody g.
  split; [reflexivity|].
  exists g. do 2 eexists.
  assert (Eg : g = 0 \/ g = 1) by lia.
  destruct Eg as [-> | ->]; (split; [reflexivity|]);
    (split; [lia|]); (split; [lia|]); reflexivity.
Qed.

Lemma getRobotGender_behaviour_witness :
  is_uchar 0x92 /\
  getRobotGender true 0x92 = getRobotGender (negb true) 0x92 /\
  exists r fmt1 fmt2,
    IO.value (getRobotGender true 0x92) = Some r /\
    (r = 1 <-> 128 <= 0x92) /\ (r = 0 <-> 0x92 < 128) /\
    IO.output (getRobotGender true 0x92)
    = [IO.Printf fmt1 [0x92; 0x92]; IO.Printf fmt2 [128 * r; 128 * r]].
Proof.
  split; [uchar_range | apply (getRobotGender_behaviour true 0x92); uchar_range].
Defined.

(** Storing a value in a plain [char] and reading it back as an
    [unsigned char] keeps its low eight bits, signed [char] or not. *)
Lemma to_uchar_to_char (char_signed : bool) (z : Z) :
  to_uchar (to_char char_signed z) = to_uchar z.
Proof.
  unfold to_char, to_schar, to_uchar. destruct char_signed.
  - Z.div_mod_to_equations. lia.
  - apply Z.mod_mod. lia.
Qed.

(** X6: [parseByte] sees only the low eight bits of what it is passed.
    An element of a plain [char] array, as [main] passes, decodes like
    the literal it was initialised from, without sign extension on a
    signed-[char] target; arguments 256 apart decode alike; and the
    members are within their bit-fields whatever the argument. *)
Theorem parseByte_low_eight_bits (char_signed : bool) (z : Z) :
  parseByte_checked (to_char char_signed z) = Some (parseByte (z mod 256)) /\
  parseByte_checked (z + 256) = parseByte_checked z /\
  fields_in_range (parseByte (z mod 256)).
Proof.
  split; [|split].
  - rewrite parseByte_checked_eq, to_uchar_to_char. reflexivity.
  - rewrite !parseByte_checked_eq. unfold to_uchar.
    replace (z + 256) with (z + 1 * 256) by lia.
    rewrite Z.mod_add by lia. reflexivity.
  - apply parseByte_fields_in_range, (to_uchar_is_uchar z).
Qed.
